(** * HPDC Industry Forecaster: the two estimators of [app.py]

    [app.py] holds two closed-form estimators, [estimate_hpdc_production]
    and [predict_annual_revenue], and the two Streamlit tab handlers that
    call them.  Python evaluates them on unbounded integers ([int]) and on
    IEEE-754 binary64 numbers ([float]); both are modelled as they are:

    - an [int] is a [Z];
    - a [float] is a [double]: NaN, an infinity, or a finite value written
      as an integer count of the smallest positive double, 2^-1074.  Every
      finite double is such a multiple, so the arithmetic below is exact
      integer arithmetic followed by one rounding to nearest, ties to even;
    - a raised exception is the [Raise] branch of [exc].

    The one operation outside the file is the C library's [pow], reached by
    [**] for operands that CPython does not settle itself; it is a variable
    of the section that holds the estimators. *)

From Stdlib Require Import ZArith Lia List String Bool.
Import ListNotations.
Open Scope string_scope.
Open Scope Z_scope.

(** ** Exceptions *)

Inductive exn : Type :=
| ZeroDivisionError
| OverflowError
| ValueError
| ComplexResult.   (* [float ** float] left the floats: Python goes on with a complex *)

Inductive exc (A : Type) : Type :=
| Ok (a : A)
| Raise (e : exn).
Arguments Ok {A} a.
Arguments Raise {A} e.

Definition bind {A B : Type} (m : exc A) (k : A -> exc B) : exc B :=
  match m with
  | Ok a => k a
  | Raise e => Raise e
  end.

Notation "x <- m ;; k" := (bind m (fun x => k))
  (at level 61, m at next level, right associativity).

(** ** Binary64 *)

Module B64.

(** [Fin k] is the double of value k * 2^-1074. *)
Inductive double : Type :=
| NaN
| Inf (neg : bool)
| Fin (k : Z).

(** 1.0 counted in units of 2^-1074. *)
Definition one : Z := 2 ^ 1074.

(** 2^1024 in the same units: the first magnitude that is no double. *)
Definition huge : Z := 2 ^ 2098.

(** Nearest integer to n/d, ties to the even one (d > 0). *)
Definition rne (n d : Z) : Z :=
  let q := n / d in
  match 2 * (n mod d) ?= d with
  | Lt => q
  | Gt => q + 1
  | Eq => if Z.even q then q else q + 1
  end.

(** Exponent of the spacing of the doubles around n/d units: 53 significant
    bits, and never finer than one unit. *)
Definition ulp_exp (n d : Z) : Z := Z.max 0 (Z.log2 (Z.abs n / d) - 52).

(** The double nearest to n/d units (d > 0); overflow gives an infinity. *)
Definition round (n d : Z) : double :=
  let e := ulp_exp n d in
  let k := rne n (d * 2 ^ e) * 2 ^ e in
  if huge <=? Z.abs k then Inf (k <? 0) else Fin k.

Definition zero : double := Fin 0.
Definition of_Z (z : Z) : double := round (z * one) 1.
(** The literal n/d, as Python reads a decimal literal. *)
Definition lit (n d : Z) : double := round (n * one) d.

Definition is_zero (x : double) : bool :=
  match x with Fin k => k =? 0 | _ => false end.
Definition is_nan (x : double) : bool :=
  match x with NaN => true | _ => false end.
Definition is_inf (x : double) : bool :=
  match x with Inf _ => true | _ => false end.
Definition is_neg (x : double) : bool :=
  match x with Fin k => k <? 0 | Inf s => s | NaN => false end.

Definition eqb (x y : double) : bool :=
  match x, y with
  | Fin a, Fin b => a =? b
  | Inf a, Inf b => Bool.eqb a b
  | _, _ => false
  end.

Definition leb (x y : double) : bool :=
  match x, y with
  | NaN, _ | _, NaN => false
  | Inf true, _ => true
  | _, Inf false => true
  | Fin a, Fin b => a <=? b
  | _, _ => false
  end.

Definition ltb (x y : double) : bool := leb x y && negb (eqb x y).

Definition opp (x : double) : double :=
  match x with
  | NaN => NaN
  | Inf s => Inf (negb s)
  | Fin k => Fin (- k)
  end.

Definition abs (x : double) : double :=
  match x with
  | NaN => NaN
  | Inf _ => Inf false
  | Fin k => Fin (Z.abs k)
  end.

Definition add (x y : double) : double :=
  match x, y with
  | NaN, _ | _, NaN => NaN
  | Inf a, Inf b => if Bool.eqb a b then Inf a else NaN
  | Inf a, Fin _ | Fin _, Inf a => Inf a
  | Fin a, Fin b => round (a + b) 1
  end.

Definition mul (x y : double) : double :=
  match x, y with
  | NaN, _ | _, NaN => NaN
  | Inf a, Inf b => Inf (xorb a b)
  | Inf a, Fin k | Fin k, Inf a =>
      if k =? 0 then NaN else Inf (xorb a (k <? 0))
  | Fin a, Fin b => round (a * b) one
  end.

(** IEEE division; Python never reaches it with a zero divisor. *)
Definition div (x y : double) : double :=
  match x, y with
  | NaN, _ | _, NaN => NaN
  | Inf _, Inf _ => NaN
  | Inf a, Fin k => Inf (xorb a (k <? 0))
  | Fin _, Inf _ => Fin 0
  | Fin a, Fin b =>
      if b =? 0 then (if a =? 0 then NaN else Inf (a <? 0))
      else round (Z.sgn b * a * one) (Z.abs b)
  end.

(** A whole number, and an odd one (CPython's DOUBLE_IS_ODD_INTEGER). *)
Definition is_integer (x : double) : bool :=
  match x with Fin k => k mod one =? 0 | _ => false end.
Definition is_odd_integer (x : double) : bool :=
  match x with Fin k => (k mod one =? 0) && Z.odd (k / one) | _ => false end.

End B64.

Import B64.

(** ** Python's numeric operators, as the two estimators use them *)

(** [float(n)], as every mixed int/float operator converts its int operand. *)
Definition int_to_float (n : Z) : exc double :=
  match of_Z n with
  | Fin k => Ok (Fin k)
  | _ => Raise OverflowError
  end.

(** [a / b] on two ints: the correctly rounded quotient. *)
Definition int_truediv (a b : Z) : exc double :=
  if b =? 0 then Raise ZeroDivisionError
  else match round (Z.sgn b * a * one) (Z.abs b) with
       | Fin k => Ok (Fin k)
       | _ => Raise OverflowError
       end.

(** [x / y] on two floats. *)
Definition float_truediv (x y : double) : exc double :=
  if is_zero y then Raise ZeroDivisionError else Ok (div x y).

(** The mixed operators: the int operand is converted first. *)
Definition float_mul_int (x : double) (n : Z) : exc double :=
  y <- int_to_float n ;; Ok (mul x y).
Definition int_mul_float (n : Z) (y : double) : exc double :=
  x <- int_to_float n ;; Ok (mul x y).
Definition float_add_int (x : double) (n : Z) : exc double :=
  y <- int_to_float n ;; Ok (add x y).
Definition int_truediv_float (n : Z) (y : double) : exc double :=
  x <- int_to_float n ;; float_truediv x y.
Definition float_truediv_int (x : double) (n : Z) : exc double :=
  y <- int_to_float n ;; float_truediv x y.

(** ** The constants of [app.py] *)

Definition HPDC_per_ICE : Z := 190.
Definition HPDC_per_HEV : Z := 240.
Definition HPDC_per_EV : Z := 300.

Definition BASE_YEAR_GDP : double := lit 2544 100.        (* 25.44 *)
Definition BASE_OTHER_HPDC : double := lit 3200000000 1.  (* 3.2e9 *)

(** The dict with the keys 'ICE', 'HEV' and 'EV' that Tab 1 builds from its
    three integer sliders. *)
Record VehicleMix : Type := mkMix { ICE : Z; HEV : Z; EV : Z }.

(** The dict [shares] of the result. *)
Record Shares : Type := mkShares { Auto : double; Housing : double; Other : double }.

Section Estimators.

(** What [float_pow] makes of the C library's [pow] once its own special
    cases are past: the value, or the exception it raises from [errno]. *)
Variable c_pow : double -> double -> exc double.

(** [x ** y] on two floats (CPython's [float_pow]). *)
Definition float_pow (x y : double) : exc double :=
  if is_zero y then Ok (Fin one)
  else if is_nan x then Ok x
  else if is_nan y then Ok (if eqb x (Fin one) then Fin one else y)
  else if is_inf y then
    (if eqb (abs x) (Fin one) then Ok (Fin one)
     else if Bool.eqb (negb (is_neg y)) (ltb (Fin one) (abs x)) then Ok (Inf false)
     else Ok zero)
  else if is_inf x then
    (if is_neg y then Ok zero
     else Ok (if is_odd_integer y then x else abs x))
  else if is_zero x then
    (if is_neg y then Raise ZeroDivisionError else Ok zero)
  else if is_neg x && negb (is_integer y) then Raise ComplexResult
  else
    let neg := is_neg x && is_odd_integer y in
    if eqb (abs x) (Fin one) then Ok (if neg then Fin (- one) else Fin one)
    else r <- c_pow (abs x) y ;; Ok (if neg then opp r else r).

(** Line 25. *)
Definition gdp_growth_factor (base_year_gdp current_gdp gdp_elasticity : double)
  : exc double :=
  q <- float_truediv current_gdp base_year_gdp ;;
  float_pow q gdp_elasticity.

(** Line 26. *)
Definition est_other_hpdc
    (base_year_gdp current_gdp base_year_other_hpdc gdp_elasticity : double)
  : exc double :=
  g <- gdp_growth_factor base_year_gdp current_gdp gdp_elasticity ;;
  Ok (mul base_year_other_hpdc g).

(** One summand of lines 29 to 31: [pct / 100 * production * per_vehicle]. *)
Definition mix_term (pct production per_vehicle : Z) : exc double :=
  f <- int_truediv pct 100 ;;
  v <- float_mul_int f production ;;
  float_mul_int v per_vehicle.

(** Lines 28 to 32. *)
Definition hpdc_auto (annual_vehicle_production : Z) (vehicle_mix : VehicleMix)
  : exc double :=
  t1 <- mix_term (ICE vehicle_mix) annual_vehicle_production HPDC_per_ICE ;;
  t2 <- mix_term (HEV vehicle_mix) annual_vehicle_production HPDC_per_HEV ;;
  t3 <- mix_term (EV vehicle_mix) annual_vehicle_production HPDC_per_EV ;;
  Ok (add (add t1 t2) t3).

(** Line 34: an int times an int. *)
Definition hpdc_housing (annual_housing_starts : Z) : Z :=
  annual_housing_starts * 100.

(** Line 35: [hpdc_auto + hpdc_housing + est_other_hpdc]. *)
Definition total_of (auto : double) (housing : Z) (other : double) : exc double :=
  s <- float_add_int auto housing ;;
  Ok (add s other).

(** Lines 37 to 41. *)
Definition shares_of (auto : double) (housing : Z) (other total_hpdc : double)
  : exc Shares :=
  sa <- float_truediv auto total_hpdc ;;
  sh <- int_truediv_float housing total_hpdc ;;
  so <- float_truediv other total_hpdc ;;
  Ok (mkShares sa sh so).

(** Lines 23 to 42. *)
Definition estimate_hpdc_production
    (annual_housing_starts annual_vehicle_production : Z)
    (vehicle_mix : VehicleMix)
    (base_year_gdp current_gdp base_year_other_hpdc gdp_elasticity : double)
  : exc (double * Shares) :=
  other <- est_other_hpdc base_year_gdp current_gdp base_year_other_hpdc
             gdp_elasticity ;;
  auto <- hpdc_auto annual_vehicle_production vehicle_mix ;;
  let housing := hpdc_housing annual_housing_starts in
  total_hpdc <- total_of auto housing other ;;
  shares <- shares_of auto housing other total_hpdc ;;
  Ok (total_hpdc, shares).

(** Lines 74 to 89, the handler of Tab 1: what it puts on the page. *)
Inductive tab1_view : Type :=
| MixWarning                          (* "Vehicle mix percentages must sum to 100%." *)
| NoEstimate                          (* the button was not pressed *)
| Estimate (r : double * Shares).

Definition national_tab
    (annual_vehicle_production vehicle_mix_ice vehicle_mix_hev vehicle_mix_ev
       housing_starts : Z)
    (gdp_current gdp_elasticity : double) (button : bool)
  : exc tab1_view :=
  let total_mix := vehicle_mix_ice + vehicle_mix_hev + vehicle_mix_ev in
  if negb (total_mix =? 100) then Ok MixWarning
  else
    let vehicle_mix := mkMix vehicle_mix_ice vehicle_mix_hev vehicle_mix_ev in
    if button then
      r <- estimate_hpdc_production housing_starts annual_vehicle_production
             vehicle_mix BASE_YEAR_GDP gdp_current BASE_OTHER_HPDC gdp_elasticity ;;
      Ok (Estimate r)
    else Ok NoEstimate.

End Estimators.

(** Line 46. [markets] is the list of names the multiselect hands over. *)
Definition automotive_weight (markets : list string) : double :=
  if existsb (String.eqb "Automotive") markets then lit 18 10 else lit 10 10.

(** Lines 45 to 51. The three counts are ints, as the number inputs of
    Tab 2 (integer [min_value] and [value]) produce them. *)
Definition predict_annual_revenue
    (machines employees avg_tonnage : Z) (markets : list string)
  : exc (double * Z) :=
  let automotive_weight := automotive_weight markets in
  let clamping_force := machines * avg_tonnage in
  let revenue_per_ton := 3000 in
  let base_revenue := clamping_force * revenue_per_ton in
  let employee_efficiency := employees * 250000 in
  revenue <- int_mul_float (base_revenue + employee_efficiency) automotive_weight ;;
  Ok (revenue, clamping_force).

(** Lines 115 to 120, the handler of the button of Tab 2: the three metrics,
    the third only [if employees:]. *)
Record tab2_view : Type := mkView
  { revenue_metric : double;
    clamping_metric : Z;
    per_employee_metric : option double }.

Definition company_tab
    (machines avg_tonnage employees : Z) (markets : list string)
  : exc tab2_view :=
  r <- predict_annual_revenue machines employees avg_tonnage markets ;;
  let '(revenue, total_clamping_force) := r in
  if employees =? 0 then Ok (mkView revenue total_clamping_force None)
  else
    q <- float_truediv_int revenue employees ;;
    Ok (mkView revenue total_clamping_force (Some q)).

(** A finite double, as a count of units. *)
Definition representable (k : Z) : Prop := round k 1 = Fin k.

(** * Facts

    ** Rounding to nearest, ties to even *)

Lemma rne_cases (n d : Z) :
  0 < d ->
  exists q r, n = d * q + r /\ 0 <= r < d /\
    ((2 * r < d /\ rne n d = q) \/
     (d < 2 * r /\ rne n d = q + 1) \/
     (2 * r = d /\ rne n d = q /\ Z.even q = true) \/
     (2 * r = d /\ rne n d = q + 1 /\ Z.even q = false)).
Proof.
  intros Hd. exists (n / d), (n mod d).
  split; [apply Z.div_mod; lia|].
  split; [apply Z.mod_pos_bound; lia|].
  unfold rne.
  destruct (Z.compare_spec (2 * (n mod d)) d) as [E|L|G].
  - destruct (Z.even (n / d)) eqn:Ev; auto 6.
  - auto.
  - auto.
Qed.

Lemma rne_exact (m d : Z) : 0 < d -> rne (m * d) d = m.
Proof.
  intros Hd. unfold rne.
  rewrite Z.div_mul by lia. rewrite Z.mod_mul by lia.
  destruct (Z.compare_spec (2 * 0) d); lia.
Qed.

Lemma rne_mono (n d n' d' : Z) :
  0 < d -> 0 < d' -> n * d' <= n' * d -> rne n d <= rne n' d'.
Proof.
  intros Hd Hd' Hle.
  destruct (rne_cases n d Hd) as (q & r & En & Hr & C).
  destruct (rne_cases n' d' Hd') as (q' & r' & En' & Hr' & C').
  assert (Hq : q <= q').
  { destruct (Z_le_gt_dec q q') as [|Hgt]; [assumption|exfalso].
    assert (H1 : d * d' * (q' + 1) <= d * d' * q)
      by (apply Z.mul_le_mono_nonneg_l; nia).
    assert (H2 : r' * d < d' * d) by (apply Z.mul_lt_mono_pos_r; lia).
    assert (H3 : 0 <= r * d') by nia.
    subst n n'. nia. }
  destruct (Z.eq_dec q q') as [<-|Hne].
  - assert (Hrr : r * d' <= r' * d) by nia.
    destruct C as [[? ->]|[[? ->]|[(? & -> & ?)|(? & -> & Ev)]]];
    destruct C' as [[? ->]|[[? ->]|[(? & -> & Ev')|(? & -> & ?)]]];
      try lia; try nia; try congruence.
  - destruct C as [[? ->]|[[? ->]|[(? & -> & ?)|(? & -> & ?)]]];
    destruct C' as [[? ->]|[[? ->]|[(? & -> & ?)|(? & -> & ?)]]]; lia.
Qed.

Lemma rne_error (n d : Z) : 0 < d -> 2 * Z.abs (rne n d * d - n) <= d.
Proof.
  intros Hd.
  destruct (rne_cases n d Hd) as (q & r & En & Hr & C).
  destruct C as [[? ->]|[[? ->]|[(? & -> & ?)|(? & -> & ?)]]]; nia.
Qed.

Lemma div_le_cross (n d n' d' : Z) :
  0 < d -> 0 < d' -> n * d' <= n' * d -> n / d <= n' / d'.
Proof.
  intros Hd Hd' Hle.
  apply Z.div_le_lower_bound; [lia|].
  pose proof (Z.mul_div_le n d Hd) as Hq.
  assert (H1 : d * (n / d) * d' <= n * d') by (apply Z.mul_le_mono_nonneg_r; lia).
  apply (Z.mul_le_mono_pos_r _ _ d); [lia|]. lia.
Qed.

Lemma ulp_exp_nonneg (n d : Z) : 0 <= ulp_exp n d.
Proof. unfold ulp_exp. lia. Qed.

Lemma ulp_exp_mono (n d n' d' : Z) :
  0 <= n -> 0 < d -> 0 < d' -> n * d' <= n' * d ->
  ulp_exp n d <= ulp_exp n' d'.
Proof.
  intros Hn Hd Hd' Hle. unfold ulp_exp.
  assert (Hn' : 0 <= n') by nia.
  rewrite !Z.abs_eq by lia.
  pose proof (div_le_cross n d n' d' Hd Hd' Hle) as Hq.
  pose proof (Z.log2_le_mono _ _ Hq). lia.
Qed.

(** The bracket that [ulp_exp] puts around n/d. *)
Lemma ulp_exp_upper (n d : Z) :
  0 <= n -> 0 < d -> n < 2 ^ (ulp_exp n d + 53) * d.
Proof.
  intros Hn Hd. unfold ulp_exp. rewrite Z.abs_eq by lia.
  set (x := n / d).
  assert (Hx : 0 <= x) by (apply Z.div_pos; lia).
  assert (Hnx : n < (x + 1) * d).
  { pose proof (Z.mod_pos_bound n d Hd). pose proof (Z.div_mod n d). unfold x. nia. }
  assert (Hb : x + 1 <= 2 ^ (Z.max 0 (Z.log2 x - 52) + 53)).
  { destruct (Z.eq_dec x 0) as [->|Hx0].
    - change (Z.log2 0) with 0. simpl Z.max. change (0 + 1 <= 2 ^ 53). lia.
    - pose proof (Z.log2_spec x ltac:(lia)) as [_ Hu].
      pose proof (Z.log2_nonneg x).
      assert (2 ^ (Z.succ (Z.log2 x)) <= 2 ^ (Z.max 0 (Z.log2 x - 52) + 53))
        by (apply Z.pow_le_mono_r; lia).
      lia. }
  nia.
Qed.

Lemma ulp_exp_lower (n d : Z) :
  0 <= n -> 0 < d -> 0 < ulp_exp n d -> 2 ^ (ulp_exp n d + 52) * d <= n.
Proof.
  intros Hn Hd. unfold ulp_exp. rewrite Z.abs_eq by lia.
  set (x := n / d). intros He.
  assert (Hx : 0 < x).
  { destruct (Z.eq_dec x 0) as [E|]; [rewrite E in He; simpl in He; lia|].
    assert (0 <= x) by (apply Z.div_pos; lia). lia. }
  pose proof (Z.log2_spec x Hx) as [Hl _].
  replace (Z.max 0 (Z.log2 x - 52) + 52) with (Z.log2 x) by lia.
  pose proof (Z.mul_div_le n d Hd). fold x in H. nia.
Qed.

(** The count of spacings that [round] keeps. *)
Lemma rne_scaled_bounds (n d : Z) :
  0 <= n -> 0 < d ->
  let e := ulp_exp n d in
  0 <= rne n (d * 2 ^ e) <= 2 ^ 53 /\ (0 < e -> 2 ^ 52 <= rne n (d * 2 ^ e)).
Proof.
  intros Hn Hd e.
  assert (He : 0 <= e) by apply ulp_exp_nonneg.
  assert (Hp : 0 < 2 ^ e) by (apply Z.pow_pos_nonneg; lia).
  assert (HD : 0 < d * 2 ^ e) by nia.
  pose proof (ulp_exp_upper n d Hn Hd) as Hu. fold e in Hu.
  rewrite Z.pow_add_r in Hu by lia.
  repeat split.
  - apply Z.le_trans with (rne (0 * (d * 2 ^ e)) (d * 2 ^ e));
      [rewrite rne_exact; lia | apply rne_mono; lia].
  - apply Z.le_trans with (rne (2 ^ 53 * (d * 2 ^ e)) (d * 2 ^ e));
      [apply rne_mono; nia | rewrite rne_exact; lia].
  - intros He0. pose proof (ulp_exp_lower n d Hn Hd He0) as Hl. fold e in Hl.
    rewrite Z.pow_add_r in Hl by lia.
    apply Z.le_trans with (rne (2 ^ 52 * (d * 2 ^ e)) (d * 2 ^ e));
      [rewrite rne_exact; lia | apply rne_mono; nia].
Qed.

Lemma round_nonneg_form (n d : Z) :
  0 <= n -> 0 < d ->
  exists k, 0 <= k /\ round n d = if huge <=? k then Inf false else Fin k.
Proof.
  intros Hn Hd.
  pose proof (rne_scaled_bounds n d Hn Hd) as [[H0 _] _].
  set (e := ulp_exp n d) in *.
  assert (Hp : 0 < 2 ^ e) by (apply Z.pow_pos_nonneg; [lia | apply ulp_exp_nonneg]).
  exists (rne n (d * 2 ^ e) * 2 ^ e). split; [nia|].
  unfold round. fold e. cbv zeta.
  rewrite Z.abs_eq by nia.
  destruct (huge <=? _); [|reflexivity].
  replace (_ <? 0) with false; [reflexivity|].
  symmetry. apply Z.ltb_ge. nia.
Qed.

Lemma round_mono (n d n' d' : Z) :
  0 <= n -> 0 < d -> 0 < d' -> n * d' <= n' * d ->
  leb (round n d) (round n' d') = true.
Proof.
  intros Hn Hd Hd' Hle.
  assert (Hn' : 0 <= n') by nia.
  pose proof (ulp_exp_mono n d n' d' Hn Hd Hd' Hle) as Hee.
  pose proof (rne_scaled_bounds n d Hn Hd) as [[H0 H1] _].
  pose proof (rne_scaled_bounds n' d' Hn' Hd') as [[H0' _] H2'].
  unfold round.
  set (e := ulp_exp n d) in *. set (e' := ulp_exp n' d') in *.
  assert (He : 0 <= e) by apply ulp_exp_nonneg.
  assert (Hp : 0 < 2 ^ e) by (apply Z.pow_pos_nonneg; lia).
  assert (Hp' : 0 < 2 ^ e') by (apply Z.pow_pos_nonneg; lia).
  cbv zeta.
  set (m := rne n (d * 2 ^ e)) in *. set (m' := rne n' (d' * 2 ^ e')) in *.
  assert (Hk : m * 2 ^ e <= m' * 2 ^ e').
  { destruct (Z.eq_dec e e') as [E|NE].
    - assert (m <= m'); [|rewrite <- E; nia].
      unfold m, m'. rewrite <- E. apply rne_mono; nia.
    - assert (He' : 0 < e') by lia. specialize (H2' He').
      assert (2 ^ 53 * 2 ^ e <= 2 ^ 52 * 2 ^ e').
      { rewrite <- !Z.pow_add_r by lia. apply Z.pow_le_mono_r; lia. }
      nia. }
  rewrite !Z.abs_eq by nia.
  destruct (Z.leb_spec huge (m * 2 ^ e)), (Z.leb_spec huge (m' * 2 ^ e'));
    simpl; try lia.
  all: try (replace (m * 2 ^ e <? 0) with false by (symmetry; apply Z.ltb_ge; nia)).
  all: try (replace (m' * 2 ^ e' <? 0) with false by (symmetry; apply Z.ltb_ge; nia)).
  all: try reflexivity.
Qed.

Lemma rne_scale (n d c : Z) : 0 < d -> 0 < c -> rne (n * c) (d * c) = rne n d.
Proof.
  intros Hd Hc. unfold rne.
  rewrite Z.div_mul_cancel_r by lia.
  rewrite Zmult_mod_distr_r.
  replace (2 * (n mod d * c)) with (2 * (n mod d) * c) by ring.
  rewrite <- (Zmult_compare_compat_r (2 * (n mod d)) d c) by lia.
  reflexivity.
Qed.

Lemma round_scale (n d c : Z) : 0 < d -> 0 < c -> round (n * c) (d * c) = round n d.
Proof.
  intros Hd Hc. unfold round, ulp_exp.
  rewrite (Z.abs_mul n c), (Z.abs_eq c) by lia.
  rewrite Z.div_mul_cancel_r by lia.
  set (e := Z.max 0 _).
  replace (d * c * 2 ^ e) with (d * 2 ^ e * c) by ring.
  rewrite rne_scale; [reflexivity| |lia].
  assert (0 < 2 ^ e) by (apply Z.pow_pos_nonneg; lia). nia.
Qed.

(** A multiple of its own spacing is a double. *)
Lemma round_multiple (m e : Z) :
  0 <= e -> 0 <= m <= 2 ^ 53 -> m * 2 ^ e < huge ->
  round (m * 2 ^ e) 1 = Fin (m * 2 ^ e).
Proof.
  intros He Hm Hh.
  assert (Hp : 0 < 2 ^ e) by (apply Z.pow_pos_nonneg; lia).
  remember (m * 2 ^ e) as k eqn:Ek.
  assert (Hk : 0 <= k) by nia.
  pose proof (ulp_exp_nonneg k 1) as He1.
  assert (Hdiv : exists c, k = c * 2 ^ ulp_exp k 1).
  { destruct (Z.eq_dec (ulp_exp k 1) 0) as [E|NE].
    - exists k. rewrite E. simpl. lia.
    - pose proof (ulp_exp_lower k 1 Hk ltac:(lia) ltac:(lia)) as Hl.
      remember (ulp_exp k 1) as e1 eqn:Ee1.
      destruct (Z_le_gt_dec e1 e) as [Hle|Hgt].
      + exists (m * 2 ^ (e - e1)). rewrite Ek.
        rewrite <- Z.mul_assoc, <- Z.pow_add_r by lia. do 2 f_equal. lia.
      + (* then m = 2^53 and e1 = e + 1 *)
        assert (H53 : 2 ^ (e + 53) <= 2 ^ (e1 + 52))
          by (apply Z.pow_le_mono_r; lia).
        rewrite Z.pow_add_r in H53 by lia.
        assert (Hm53 : m = 2 ^ 53) by nia.
        assert (He1e : e1 = e + 1).
        { destruct (Z.eq_dec e1 (e + 1)); [assumption|exfalso].
          assert (H54 : 2 ^ (e + 54) <= 2 ^ (e1 + 52))
            by (apply Z.pow_le_mono_r; lia).
          rewrite Z.pow_add_r in H54 by lia.
          change (2 ^ 54) with (2 * 2 ^ 53) in H54. nia. }
        exists (2 ^ 52). rewrite Ek, Hm53, He1e.
        rewrite <- !Z.pow_add_r by lia. f_equal. lia. }
  destruct Hdiv as [c Hc].
  unfold round. cbv zeta.
  remember (ulp_exp k 1) as e1 eqn:Ee1.
  assert (Hp1 : 0 < 2 ^ e1) by (apply Z.pow_pos_nonneg; lia).
  rewrite Z.mul_1_l.
  replace (rne k (2 ^ e1)) with c by (rewrite Hc, rne_exact by lia; reflexivity).
  rewrite <- Hc.
  rewrite Z.abs_eq by lia.
  destruct (Z.leb_spec huge k); [lia|reflexivity].
Qed.

(** What [round] returns is a double. *)
Lemma round_representable (n d k : Z) :
  0 <= n -> 0 < d -> round n d = Fin k -> 0 <= k /\ representable k.
Proof.
  intros Hn Hd H.
  pose proof (rne_scaled_bounds n d Hn Hd) as [Hb _].
  pose proof (ulp_exp_nonneg n d) as He.
  unfold round in H. cbv zeta in H.
  set (e := ulp_exp n d) in *. set (m := rne n (d * 2 ^ e)) in *.
  assert (Hp : 0 < 2 ^ e) by (apply Z.pow_pos_nonneg; lia).
  rewrite Z.abs_eq in H by nia.
  destruct (Z.leb_spec huge (m * 2 ^ e)); [discriminate|].
  injection H as <-. split; [nia|].
  apply round_multiple; assumption.
Qed.

(** The rounding error: half a spacing, so at most 2^-53 of the value, or
    half a unit where the spacing is one unit. *)
Lemma round_error (n d k : Z) :
  0 <= n -> 0 < d -> round n d = Fin k ->
  2 * Z.abs (k * d - n) <= d \/ 2 ^ 53 * Z.abs (k * d - n) <= n.
Proof.
  intros Hn Hd H.
  pose proof (ulp_exp_nonneg n d) as He.
  unfold round in H. cbv zeta in H.
  destruct (huge <=? _); [discriminate|]. injection H as <-.
  destruct (Z.eq_dec (ulp_exp n d) 0) as [E|NE].
  - left. rewrite E. simpl. rewrite !Z.mul_1_r. apply rne_error. lia.
  - right.
    pose proof (ulp_exp_lower n d Hn Hd ltac:(lia)) as Hl.
    set (e := ulp_exp n d) in *.
    assert (Hp : 0 < 2 ^ e) by (apply Z.pow_pos_nonneg; lia).
    pose proof (rne_error n (d * 2 ^ e) ltac:(nia)) as Hr.
    rewrite Z.pow_add_r in Hl by lia.
    replace (rne n (d * 2 ^ e) * 2 ^ e * d) with (rne n (d * 2 ^ e) * (d * 2 ^ e)) by ring.
    change (2 ^ 53) with (2 * 2 ^ 52). change (2 ^ 52) with (2 ^ 52) in Hl.
    nia.
Qed.

(** ** The arithmetic of accumulated rounding errors *)

Lemma abs_triangle3 (a b c : Z) : Z.abs (a + b + c) <= Z.abs a + Z.abs b + Z.abs c.
Proof. lia. Qed.

Lemma share_sum_arith (U W A H O S1 T ka kh ko : Z) :
  17 <= U -> 3 * U <= W ->
  0 <= A -> 0 <= H -> 0 <= O -> 0 < T ->
  U * Z.abs (S1 - (A + H)) <= A + H ->
  U * Z.abs (T - (S1 + O)) <= S1 + O ->
  2 * U * Z.abs (ka * T - A * W) <= U * T + 2 * (A * W) ->
  2 * U * Z.abs (kh * T - H * W) <= U * T + 2 * (H * W) ->
  2 * U * Z.abs (ko * T - O * W) <= U * T + 2 * (O * W) ->
  U * Z.abs (ka + kh + ko - W) <= 4 * W.
Proof.
  intros HU HW HA HH HO HT E1 E2 Ea Eh Eo.
  remember (A + H + O) as Sg eqn:ESg.
  remember (S1 - (A + H)) as e1 eqn:Ee1.
  remember (T - (S1 + O)) as e2 eqn:Ee2.
  assert (HSg : 0 <= Sg) by lia.
  assert (HTS : T - Sg = e1 + e2) by lia.
  remember (Z.abs e1) as a1 eqn:Ea1. remember (Z.abs e2) as a2 eqn:Ea2.
  assert (Ha1 : 0 <= a1) by lia. assert (Ha2 : 0 <= a2) by lia.
  remember (Z.abs (T - Sg)) as aT eqn:EaT.
  assert (HaT : aT <= a1 + a2) by lia.
  assert (HaT0 : 0 <= aT) by lia.
  (* the three quotients together *)
  remember (ka * T - A * W) as da. remember (kh * T - H * W) as dh.
  remember (ko * T - O * W) as d0.
  assert (ED : (ka + kh + ko) * T - Sg * W = da + dh + d0) by (subst; ring).
  remember (Z.abs (da + dh + d0)) as aD eqn:EaD.
  assert (HD : 2 * U * aD <= 3 * (U * T) + 2 * (Sg * W)).
  { assert (HDt : aD <= Z.abs da + Z.abs dh + Z.abs d0) by lia.
    assert (2 * U * aD <= 2 * U * (Z.abs da + Z.abs dh + Z.abs d0))
      by (apply Z.mul_le_mono_nonneg_l; lia).
    replace (Sg * W) with (A * W + H * W + O * W) by (subst Sg; ring).
    lia. }
  (* the total against the exact sum *)
  assert (H1 : U * a1 <= Sg) by lia.
  assert (H2 : U * a2 <= Sg + a1) by lia.
  assert (H2' : U * (U * a2) <= U * Sg + Sg).
  { assert (U * (U * a2) <= U * (Sg + a1)) by (apply Z.mul_le_mono_nonneg_l; lia).
    lia. }
  assert (H3 : U * (U * aT) <= (2 * U + 1) * Sg).
  { assert (U * (U * aT) <= U * (U * (a1 + a2)))
      by (do 2 (apply Z.mul_le_mono_nonneg_l; [lia|]); lia).
    assert (U * (U * a1) <= U * Sg) by (apply Z.mul_le_mono_nonneg_l; lia).
    lia. }
  assert (H4 : U * (U * Sg) <= U * (U * T) + (2 * U + 1) * Sg).
  { assert (Sg <= T + aT) by lia.
    assert (U * (U * Sg) <= U * (U * (T + aT)))
      by (do 2 (apply Z.mul_le_mono_nonneg_l; [lia|]); lia).
    lia. }
  (* so (6U+2) Sg <= 7 U T *)
  assert (HUU : 16 * U + 7 <= U * U).
  { assert (17 * U <= U * U) by (apply Z.mul_le_mono_nonneg_r; lia). lia. }
  assert (H5 : (6 * U + 2) * Sg <= 7 * (U * T)).
  { destruct (Z_le_gt_dec ((6 * U + 2) * Sg) (7 * (U * T))) as [|Hgt]; [assumption|exfalso].
    (* 7 * H4 and U*U * Hgt *)
    assert (Hq : 7 * (U * (U * Sg)) <= 7 * (U * (U * T)) + 7 * ((2 * U + 1) * Sg)) by lia.
    assert (Hp : U * (7 * (U * T)) <= U * ((6 * U + 2) * Sg - 1))
      by (apply Z.mul_le_mono_nonneg_l; lia).
    assert (Hr : (16 * U + 7) * Sg <= U * U * Sg)
      by (apply Z.mul_le_mono_nonneg_r; lia).
    assert (E7 : U * (7 * (U * T)) = 7 * (U * (U * T))) by ring.
    assert (E8 : U * ((6 * U + 2) * Sg - 1) = 6 * (U * (U * Sg)) + 2 * (U * Sg) - U) by ring.
    assert (E9 : U * U * Sg = U * (U * Sg)) by ring.
    assert (E10 : (16 * U + 7) * Sg = 16 * (U * Sg) + 7 * Sg) by ring.
    assert (E11 : (2 * U + 1) * Sg = 2 * (U * Sg) + Sg) by ring.
    lia. }
  (* the goal, times T *)
  remember (Z.abs (ka + kh + ko - W)) as g eqn:Eg.
  assert (Hg0 : 0 <= g) by lia.
  assert (HgT : g * T <= aD + W * aT).
  { assert (Habs : Z.abs ((ka + kh + ko - W) * T) = g * T)
      by (rewrite Z.abs_mul, (Z.abs_eq T) by lia; subst g; reflexivity).
    assert (Esplit : (ka + kh + ko - W) * T = (da + dh + d0) + W * (Sg - T))
      by (rewrite <- ED; ring).
    assert (HW' : Z.abs (W * (Sg - T)) = W * aT).
    { rewrite Z.abs_mul, (Z.abs_eq W) by lia. f_equal. subst aT. lia. }
    rewrite <- Habs, Esplit, <- HW'. subst aD. apply Z.abs_triangle. }
  assert (HG : 2 * (U * (U * (g * T))) <= 8 * (U * (W * T))).
  { assert (X1 : 2 * (U * (U * (g * T))) <= 2 * (U * (U * (aD + W * aT))))
      by (apply Z.mul_le_mono_nonneg_l; [lia|];
          do 2 (apply Z.mul_le_mono_nonneg_l; [lia|]); assumption).
    assert (X2 : U * (2 * U * aD) <= U * (3 * (U * T) + 2 * (Sg * W)))
      by (apply Z.mul_le_mono_nonneg_l; lia).
    assert (X3 : 2 * W * (U * (U * aT)) <= 2 * W * ((2 * U + 1) * Sg))
      by (apply Z.mul_le_mono_nonneg_l; lia).
    assert (X4 : W * ((6 * U + 2) * Sg) <= W * (7 * (U * T)))
      by (apply Z.mul_le_mono_nonneg_l; lia).
    assert (X5 : 3 * U * (U * T) <= W * (U * T)).
    { apply Z.mul_le_mono_nonneg_r; [|lia]. apply Z.mul_nonneg_nonneg; lia. }
    assert (E1' : 2 * (U * (U * (aD + W * aT))) = U * (2 * U * aD) + 2 * W * (U * (U * aT))) by ring.
    assert (E2' : U * (3 * (U * T) + 2 * (Sg * W)) + 2 * W * ((2 * U + 1) * Sg)
                  = 3 * U * (U * T) + W * ((6 * U + 2) * Sg)) by ring.
    assert (E3' : W * (U * T) + W * (7 * (U * T)) = 8 * (U * (W * T))) by ring.
    lia. }
  assert (HUT : 0 < 2 * (U * T)).
  { assert (0 < U * T) by (apply Z.mul_pos_pos; lia). lia. }
  apply (Z.mul_le_mono_pos_l _ _ (2 * (U * T))); [assumption|].
  replace (2 * (U * T) * (U * g)) with (2 * (U * (U * (g * T)))) by ring.
  replace (2 * (U * T) * (4 * W)) with (8 * (U * (W * T))) by ring.
  exact HG.
Qed.

Definition is_double (x : double) : Prop :=
  match x with Fin k => representable k | _ => True end.

Definition sample_pow (x y : double) : exc double :=
  if eqb y (Fin one) then Ok x
  else if eqb x (div (lit 2710 100) BASE_YEAR_GDP) && eqb y (lit 92 100)
       then Ok (lit 10598783212492227 10000000000000000)
       else Raise ValueError.

Lemma one_pos : 0 < one.
Proof. unfold one. apply Z.pow_pos_nonneg; lia. Qed.

Lemma mul_one_r (x : double) : is_double x -> mul x (Fin one) = x.
Proof.
  destruct x as [|s|k]; simpl; intros H.
  - reflexivity.
  - pose proof one_pos. destruct (Z.eqb_spec one 0); [lia|].
    replace (one <? 0) with false by (symmetry; apply Z.ltb_ge; lia).
    now rewrite xorb_false_r.
  - rewrite <- (Z.mul_1_l one) at 2. rewrite round_scale; [exact H|lia|apply one_pos].
Qed.

Lemma round_nonneg_cases (n d : Z) :
  0 <= n -> 0 < d ->
  round n d = Inf false \/ exists k, round n d = Fin k /\ 0 <= k /\ representable k.
Proof.
  intros Hn Hd.
  destruct (round_nonneg_form n d Hn Hd) as (k & Hk & E).
  destruct (huge <=? k); [left; exact E|right].
  exists k. split; [exact E|]. exact (round_representable n d k Hn Hd E).
Qed.

Lemma round_le_fin (n d n' d' k' : Z) :
  0 <= n -> 0 < d -> 0 < d' -> n * d' <= n' * d -> round n' d' = Fin k' ->
  exists k, round n d = Fin k /\ 0 <= k <= k' /\ representable k.
Proof.
  intros Hn Hd Hd' Hle E'.
  pose proof (round_mono n d n' d' Hn Hd Hd' Hle) as Hm. rewrite E' in Hm.
  destruct (round_nonneg_cases n d Hn Hd) as [E|(k & E & Hk & Hr)];
    rewrite E in Hm; simpl in Hm; [discriminate|].
  exists k. repeat split; try assumption. lia.
Qed.

Lemma of_Z_2_1023 : round (2 ^ 1023 * one) 1 = Fin (2 ^ 1023 * one).
Proof. vm_compute. reflexivity. Qed.

Lemma int_to_float_in_range (n : Z) :
  0 <= n <= 2 ^ 1023 ->
  exists k, int_to_float n = Ok (Fin k) /\ of_Z n = Fin k /\ 0 <= k /\ representable k.
Proof.
  pose proof one_pos as H1. pose proof of_Z_2_1023 as HB.
  remember (2 ^ 1023) as B eqn:EB. clear EB.
  remember one as W eqn:EW.
  intros Hn.
  destruct (round_le_fin (n * W) 1 (B * W) 1 (B * W))
    as (k & E & Hk & Hr).
  - apply Z.mul_nonneg_nonneg; lia.
  - lia.
  - lia.
  - rewrite !Z.mul_1_r. apply Z.mul_le_mono_nonneg_r; lia.
  - exact HB.
  - exists k. unfold int_to_float, of_Z. rewrite <- EW, E.
    repeat split; try assumption; apply Hk.
Qed.

Lemma serves_automotive (markets : list string) :
  existsb (String.eqb "Automotive") markets = true <-> In "Automotive" markets.
Proof.
  rewrite existsb_exists. split.
  - intros (s & Hin & E). apply String.eqb_eq in E. now subst.
  - intros Hin. exists "Automotive". split; [assumption|apply String.eqb_refl].
Qed.

Lemma automotive_weight_in (markets : list string) :
  In "Automotive" markets -> automotive_weight markets = lit 18 10.
Proof.
  intros H. apply serves_automotive in H. unfold automotive_weight. now rewrite H.
Qed.

Lemma automotive_weight_out (markets : list string) :
  ~ In "Automotive" markets -> automotive_weight markets = lit 10 10.
Proof.
  intros H. unfold automotive_weight.
  destruct (existsb _ markets) eqn:E; [|reflexivity].
  apply serves_automotive in E. contradiction.
Qed.

(** The literal 1.0. *)
Lemma lit_one : lit 10 10 = Fin one.
Proof. vm_compute. reflexivity. Qed.

Lemma company_bound :
  10 ^ 100 * 10 ^ 100 * 3000 + 10 ^ 100 * 250000 <= 2 ^ 1023.
Proof. vm_compute. discriminate. Qed.

Lemma revenue_int_in_range (machines employees avg_tonnage : Z) :
  0 <= machines <= 10 ^ 100 -> 0 <= employees <= 10 ^ 100 ->
  0 <= avg_tonnage <= 10 ^ 100 ->
  0 <= machines * avg_tonnage * 3000 + employees * 250000 <= 2 ^ 1023.
Proof.
  pose proof company_bound as HB.
  remember (10 ^ 100) as B. remember (2 ^ 1023) as C. clear HeqB HeqC.
  intros Hm He Ht.
  assert (0 <= machines * avg_tonnage) by (apply Z.mul_nonneg_nonneg; lia).
  assert (machines * avg_tonnage <= B * B) by (apply Z.mul_le_mono_nonneg; lia).
  lia.
Qed.

(** C5 *)
Theorem predict_annual_revenue_formula :
  (forall machines employees avg_tonnage markets,
     0 <= machines <= 10 ^ 100 -> 0 <= employees <= 10 ^ 100 ->
     0 <= avg_tonnage <= 10 ^ 100 ->
     exists s,
       of_Z (machines * avg_tonnage * 3000 + employees * 250000) = Fin s /\
       predict_annual_revenue machines employees avg_tonnage markets =
         Ok (mul (Fin s)
               (if in_dec string_dec "Automotive" markets then lit 18 10 else lit 10 10),
             machines * avg_tonnage))
  /\ predict_annual_revenue 10 50 200 ["Automotive"] = Ok (of_Z 33300000, 2000).
Proof.
  split.
  - intros m e t mk Hm He Ht.
    destruct (int_to_float_in_range _ (revenue_int_in_range m e t Hm He Ht))
      as (s & Hs & Hof & _).
    exists s. split; [exact Hof|].
    unfold predict_annual_revenue, int_mul_float. cbv zeta.
    rewrite Hs. cbn [bind].
    destruct (in_dec string_dec "Automotive" mk) as [Hin|Hout].
    + now rewrite automotive_weight_in.
    + now rewrite automotive_weight_out.
  - vm_compute. reflexivity.
Qed.

Lemma predict_annual_revenue_formula_witness :
  exists s,
    of_Z (10 * 200 * 3000 + 50 * 250000) = Fin s /\
    predict_annual_revenue 10 50 200 ["Medical"; "Automotive"] =
      Ok (mul (Fin s) (lit 18 10), 10 * 200).
Proof.
  destruct (proj1 predict_annual_revenue_formula 10 50 200 ["Medical"; "Automotive"])
    as (s & H1 & H2); try (split; [lia | apply Z.lt_le_incl; reflexivity]).
  exists s. split; [exact H1|exact H2].
Defined.

(** C7 *)
Theorem revenue_depends_on_automotive_only :
  (forall machines employees avg_tonnage markets1 markets2,
     (In "Automotive" markets1 <-> In "Automotive" markets2) ->
     predict_annual_revenue machines employees avg_tonnage markets1 =
     predict_annual_revenue machines employees avg_tonnage markets2)
  /\ predict_annual_revenue 10 50 200 ["Industrial"] = Ok (of_Z 18500000, 2000).
Proof.
  split.
  - intros m e t mk1 mk2 H.
    unfold predict_annual_revenue. cbv zeta.
    replace (automotive_weight mk2) with (automotive_weight mk1); [reflexivity|].
    unfold automotive_weight.
    destruct (existsb _ mk1) eqn:E1, (existsb _ mk2) eqn:E2; try reflexivity.
    + apply serves_automotive, H, serves_automotive in E1. congruence.
    + apply serves_automotive, H, serves_automotive in E2. congruence.
  - vm_compute. reflexivity.
Qed.

Lemma revenue_depends_on_automotive_only_witness :
  predict_annual_revenue 10 50 200 ["Automotive"; "Medical"; "Consumer"] =
  predict_annual_revenue 10 50 200 ["Aerospace"; "Automotive"].
Proof.
  apply (proj1 revenue_depends_on_automotive_only).
  split; intros _; simpl; tauto.
Defined.

Lemma round_one : round (1 * one) 1 = Fin one.
Proof. vm_compute. reflexivity. Qed.

(** A positive int converts to a positive double whenever a larger int
    converts at all. *)
Lemma int_to_float_below (n n' : Z) (x' : double) :
  0 <= n <= n' -> int_to_float n' = Ok x' ->
  exists k k', x' = Fin k' /\ int_to_float n = Ok (Fin k) /\ of_Z n = Fin k /\
               0 <= k <= k' /\ representable k.
Proof.
  intros Hn H'. unfold int_to_float, of_Z in *. pose proof one_pos as H1.
  remember one as W.
  destruct (round (n' * W) 1) as [| |k'] eqn:E'; try discriminate.
  injection H' as <-.
  assert (Hnn : 0 <= n * W) by (apply Z.mul_nonneg_nonneg; lia).
  assert (Hle : n * W * 1 <= n' * W * 1)
    by (rewrite !Z.mul_1_r; apply Z.mul_le_mono_nonneg_r; lia).
  destruct (round_le_fin (n * W) 1 (n' * W) 1 k' Hnn Z.lt_0_1 Z.lt_0_1 Hle E')
    as (k & E & Hk & Hr).
  exists k, k'. rewrite E. auto.
Qed.

Lemma of_Z_pos (n k : Z) : 0 < n -> of_Z n = Fin k -> one <= k.
Proof.
  intros Hn E. unfold of_Z in E. pose proof one_pos as H1.
  pose proof round_one as R1.
  remember one as W.
  pose proof (round_mono (1 * W) 1 (n * W) 1) as Hm.
  rewrite R1, E in Hm. cbn [leb] in Hm. apply Z.leb_le. apply Hm.
  - lia.
  - lia.
  - lia.
  - rewrite !Z.mul_1_r. apply Z.mul_le_mono_nonneg_r; lia.
Qed.

Lemma predict_annual_revenue_raises (m e t : Z) (mk : list string) (x : exn) :
  predict_annual_revenue m e t mk = Raise x -> x = OverflowError.
Proof.
  unfold predict_annual_revenue, int_mul_float, int_to_float. cbv zeta.
  destruct (of_Z _); cbn [bind]; congruence.
Qed.

Lemma predict_annual_revenue_clamping (m e t : Z) (mk : list string) r cf :
  predict_annual_revenue m e t mk = Ok (r, cf) -> cf = m * t.
Proof.
  unfold predict_annual_revenue, int_mul_float, int_to_float. cbv zeta.
  destruct (of_Z _); cbn [bind]; congruence.
Qed.

(** C8 *)
Theorem revenue_per_employee_guard :
  (forall machines avg_tonnage markets revenue cf,
     predict_annual_revenue machines 0 avg_tonnage markets = Ok (revenue, cf) ->
     company_tab machines avg_tonnage 0 markets = Ok (mkView revenue cf None))
  /\ (forall machines avg_tonnage employees markets revenue cf,
     0 <= machines -> 0 <= avg_tonnage -> 0 < employees ->
     predict_annual_revenue machines employees avg_tonnage markets = Ok (revenue, cf) ->
     exists k, of_Z employees = Fin k /\ 0 < k /\
       company_tab machines avg_tonnage employees markets =
         Ok (mkView revenue cf (Some (div revenue (Fin k)))))
  /\ (forall machines avg_tonnage employees markets,
     0 <= machines -> 0 <= avg_tonnage -> 0 <= employees ->
     company_tab machines avg_tonnage employees markets <> Raise ZeroDivisionError)
  /\ company_tab 10 200 50 ["Automotive"] =
       Ok (mkView (of_Z 33300000) 2000 (Some (of_Z 666000))).
Proof.
  assert (Hpos : forall m t e mk r cf,
     0 <= m -> 0 <= t -> 0 < e ->
     predict_annual_revenue m e t mk = Ok (r, cf) ->
     exists k, of_Z e = Fin k /\ 0 < k /\
       company_tab m t e mk = Ok (mkView r cf (Some (div r (Fin k))))).
  { intros m t e mk r cf Hm Ht He H.
    assert (Hconv : exists x, int_to_float (m * t * 3000 + e * 250000) = Ok x).
    { revert H. unfold predict_annual_revenue, int_mul_float. cbv zeta.
      destruct (int_to_float _) as [x|]; [eauto|discriminate]. }
    destruct Hconv as [x Hx].
    assert (Hle : 0 <= e <= m * t * 3000 + e * 250000).
    { assert (0 <= m * t) by (apply Z.mul_nonneg_nonneg; lia). lia. }
    destruct (int_to_float_below _ _ _ Hle Hx) as (k & k' & _ & Hk & Hof & _ & _).
    pose proof (of_Z_pos e k He Hof) as Hone. pose proof one_pos.
    exists k. split; [exact Hof|]. split; [lia|].
    unfold company_tab. rewrite H. cbn [bind].
    destruct (Z.eqb_spec e 0); [lia|].
    unfold float_truediv_int. rewrite Hk. cbn [bind].
    unfold float_truediv. cbn [is_zero].
    destruct (Z.eqb_spec k 0); [lia|]. reflexivity. }
  split; [|split; [exact Hpos|split]].
  - intros m t mk r cf H. unfold company_tab. rewrite H. reflexivity.
  - intros m t e mk Hm Ht He.
    destruct (predict_annual_revenue m e t mk) as [[r cf]|x] eqn:E.
    + destruct (Z.eq_dec e 0) as [->|Hne].
      * unfold company_tab. rewrite E. cbn. discriminate.
      * destruct (Hpos m t e mk r cf Hm Ht ltac:(lia) E) as (k & _ & _ & ->).
        discriminate.
    + apply predict_annual_revenue_raises in E as Ex. subst x.
      unfold company_tab. rewrite E. cbn. discriminate.
  - vm_compute. reflexivity.
Qed.

Lemma revenue_per_employee_guard_witness :
  company_tab 4 150 0 [] = Ok (mkView (of_Z 1800000) 600 None)
  /\ (exists k, of_Z 7 = Fin k /\ 0 < k /\
       company_tab 4 150 7 ["Medical"] =
         Ok (mkView (of_Z 3550000) 600 (Some (div (of_Z 3550000) (Fin k)))))
  /\ company_tab 4 150 7 ["Medical"] <> Raise ZeroDivisionError.
Proof.
  destruct revenue_per_employee_guard as (H0 & Hp & Hz & _).
  split; [|split].
  - apply H0. vm_compute. reflexivity.
  - apply Hp; try lia. vm_compute. reflexivity.
  - apply Hz; lia.
Defined.
